(** * Lead sourcing screen: sync orchestration

    A shallow embedding of [src/app/(tabs)/lead-sourcing.tsx]: the handlers
    [handleSearch], [handleSyncLead], [handleSyncAllLeads], the status icon
    [getSyncStatusIcon] and the [canSync] flag of every lead card.

    The handlers are [async] functions.  Each one is written as a term of
    [Proc], a tree of the effects the component performs ([Alert.alert],
    [setSyncingLeads], the awaited store calls); two semantics run such a
    tree: [advance] runs it up to its next [await] (so that calls can
    overlap), [exec] runs it to completion against scripted collaborators. *)

From Stdlib Require Import Ascii String.
From stdpp Require Import gmap list strings pretty.

Set Warnings "-register-all,-clear-no-such-hyp".

(** * Part I: the embedding *)

(** ** Strings *)

(** A JavaScript string is a sequence of UTF-16 code units. *)
Definition JsString := list N.

(** The string literals of the source are all ASCII. *)
Definition lit (s : string) : JsString :=
  (λ a, Ascii.N_of_ascii a) <$> String.list_ascii_of_string s.

(** [Number.prototype.toString] on an array length. *)
Definition numberToString (n : nat) : JsString := lit (pretty n).

(** WhiteSpace and LineTerminator code points of ECMAScript, the ones
    [String.prototype.trim] strips: TAB, LF, VT, FF, CR, SP, NBSP, U+1680,
    U+2000..U+200A, LS, PS, U+202F, U+205F, U+3000 and the BOM. *)
Definition isWhiteSpace (c : N) : bool :=
  bool_decide (c ∈ [9; 10; 11; 12; 13; 32; 160; 5760; 8232; 8233; 8239;
                     8287; 12288; 65279]%N)
  || ((8192 <=? c)%N && (c <=? 8202)%N).

Fixpoint trimStart (s : JsString) : JsString :=
  match s with
  | [] => []
  | c :: s' => if isWhiteSpace c then trimStart s' else s
  end.

Definition trimEnd (s : JsString) : JsString := reverse (trimStart (reverse s)).

Definition trim (s : JsString) : JsString := trimEnd (trimStart s).

(** Truthiness of a string: only the empty string is falsy. *)
Definition truthy (s : JsString) : bool :=
  match s with [] => false | _ => true end.

(** ** Data *)

(** A lead, as far as the screen looks into it; the display attributes are
    opaque to the handlers. *)
Record Lead := { id : JsString; syncedToHubSpot : bool }.

(** What a rendering of the component closes over: [leads] and [error] of
    [useLeadSourcingStore], [hubspotStatus.isConfigured] of
    [useHubSpotStore], and the two [useState] cells. *)
Record ScreenState := {
  leads : list Lead;
  error : option JsString;
  isConfigured : bool;
  searchQuery : JsString;
  syncingLeads : gset JsString
}.

(** A thrown value: [error instanceof Error] or anything else. *)
Inductive JsValue :=
| ErrorObject (message : JsString)
| NonError.

(** How the promise of [syncLeadToHubSpot] settles. *)
Inductive GatewayOutcome :=
| Resolved (success : bool)
| Rejected (reason : JsValue).

(** How the discovery call behind [searchLeads] ends. *)
Inductive SearchOutcome :=
| Found (found : list Lead)
| SearchFailed (message : JsString).

Inductive ButtonStyle := Cancel.

Record AlertButton (P : Type) := {
  text : JsString;
  style : option ButtonStyle;
  onPress : option P
}.
Arguments text {P}.
Arguments style {P}.
Arguments onPress {P}.

(** ** Effect trees *)

Inductive Proc (A : Type) : Type :=
| Ret (a : A)
| Throw (e : JsValue)
| SetSyncingLeads (f : gset JsString → gset JsString) (k : Proc A)
| AlertAlert (title message : JsString)
             (buttons : list (AlertButton (Proc unit))) (k : Proc A)
| SyncLeadToHubSpot (leadId : JsString) (k : GatewayOutcome → Proc A)
| SearchLeads (query : JsString) (k : Proc A).
Arguments Ret {A}.
Arguments Throw {A}.
Arguments SetSyncingLeads {A}.
Arguments AlertAlert {A}.
Arguments SyncLeadToHubSpot {A}.
Arguments SearchLeads {A}.

Fixpoint bind {A B} (p : Proc A) (f : A → Proc B) : Proc B :=
  match p with
  | Ret a => f a
  | Throw e => Throw e
  | SetSyncingLeads g k => SetSyncingLeads g (bind k f)
  | AlertAlert t m bs k => AlertAlert t m bs (bind k f)
  | SyncLeadToHubSpot i k => SyncLeadToHubSpot i (λ o, bind (k o) f)
  | SearchLeads q k => SearchLeads q (bind k f)
  end.

#[global] Instance Proc_ret : MRet Proc := λ A a, Ret a.
#[global] Instance Proc_bind : MBind Proc := λ A B f p, bind p f.

(** [try { p } catch (e) { h e }] *)
Fixpoint catch {A} (p : Proc A) (h : JsValue → Proc A) : Proc A :=
  match p with
  | Ret a => Ret a
  | Throw e => h e
  | SetSyncingLeads g k => SetSyncingLeads g (catch k h)
  | AlertAlert t m bs k => AlertAlert t m bs (catch k h)
  | SyncLeadToHubSpot i k => SyncLeadToHubSpot i (λ o, catch (k o) h)
  | SearchLeads q k => SearchLeads q (catch k h)
  end.

(** [try { p } finally { fin }]: [fin] runs on both exits, and the exit of
    [p] is kept unless [fin] throws itself. *)
Fixpoint finally {A} (p : Proc A) (fin : Proc unit) : Proc A :=
  match p with
  | Ret a => bind fin (λ _, Ret a)
  | Throw e => bind fin (λ _, Throw e)
  | SetSyncingLeads g k => SetSyncingLeads g (finally k fin)
  | AlertAlert t m bs k => AlertAlert t m bs (finally k fin)
  | SyncLeadToHubSpot i k => SyncLeadToHubSpot i (λ o, finally (k o) fin)
  | SearchLeads q k => SearchLeads q (finally k fin)
  end.

Definition tryCatchFinally {A} (body : Proc A) (h : JsValue → Proc A)
    (fin : Proc unit) : Proc A :=
  finally (catch body h) fin.

(** [for (const x of xs) { await body x }] *)
Fixpoint forOf {X} (xs : list X) (body : X → Proc unit) : Proc unit :=
  match xs with
  | [] => Ret tt
  | x :: xs' => body x ;; forOf xs' body
  end.

(** The primitive effects, named as the source calls them. *)
Definition setSyncingLeads (f : gset JsString → gset JsString) : Proc unit :=
  SetSyncingLeads f (Ret tt).

Definition Alert_alert (title message : JsString)
    (buttons : list (AlertButton (Proc unit))) : Proc unit :=
  AlertAlert title message buttons (Ret tt).

(** [await syncLeadToHubSpot(leadId)]: a rejected promise throws at the
    [await]. *)
Definition syncLeadToHubSpot (leadId : JsString) : Proc bool :=
  SyncLeadToHubSpot leadId
    (λ o, match o with Resolved b => Ret b | Rejected e => Throw e end).

(** [await searchLeads(query)] *)
Definition searchLeads (query : JsString) : Proc unit :=
  SearchLeads query (Ret tt).

(** ** The handlers of [LeadSourcingScreen]

    Every handler is a closure of one rendering [r]. *)

Definition handleSearch (r : ScreenState) : Proc unit :=
  if negb (truthy (trim (searchQuery r))) then
    Alert_alert (lit "Error") (lit "Please enter a search query") []
  else
    searchLeads (searchQuery r).

Definition handleSyncLead (r : ScreenState) (leadId : JsString) : Proc unit :=
  if negb (isConfigured r) then
    Alert_alert (lit "Error")
      (lit "HubSpot is not configured. Please configure it in Settings.") []
  else
    setSyncingLeads (λ prev, prev ∪ {[leadId]}) ;;
    tryCatchFinally
      (success ← syncLeadToHubSpot leadId;
       if success : bool then
         Alert_alert (lit "Success") (lit "Lead synced to HubSpot successfully") []
       else
         Alert_alert (lit "Error") (lit "Failed to sync lead to HubSpot") [])
      (λ error,
         let errorMessage :=
           match error with
           | ErrorObject message => message
           | NonError => lit "Unknown error occurred"
           end in
         Alert_alert (lit "Error") (lit "Sync failed: " ++ errorMessage) [])
      (setSyncingLeads (λ prev, prev ∖ {[leadId]})).

(** The [onPress] closure of the [Sync All] button of the confirmation. *)
Definition syncAllOnPress (r : ScreenState) : Proc unit :=
  forOf (leads r) (λ lead, handleSyncLead r (id lead)).

Definition handleSyncAllLeads (r : ScreenState) : Proc unit :=
  if negb (isConfigured r) then
    Alert_alert (lit "Error")
      (lit "HubSpot is not configured. Please configure it in Settings.") []
  else if (length (leads r) =? 0)%nat then
    Alert_alert (lit "Error") (lit "No leads to sync") []
  else
    Alert_alert (lit "Sync All Leads")
      (lit "This will sync " ++ numberToString (length (leads r))
         ++ lit " leads to HubSpot. Continue?")
      [ {| text := lit "Cancel"; style := Some Cancel; onPress := None |};
        {| text := lit "Sync All"; style := None;
           onPress := Some (syncAllOnPress r) |} ].

(** ** What the rendering shows *)

Inductive StatusIcon := ActivityIndicator | CheckCircle | Zap.

(** [leads.find(l => l.id === leadId)] *)
Definition findLead (ls : list Lead) (leadId : JsString) : option Lead :=
  List.find (λ l, bool_decide (id l = leadId)) ls.

Definition getSyncStatusIcon (r : ScreenState) (leadId : JsString) : StatusIcon :=
  let lead := findLead (leads r) leadId in
  if bool_decide (leadId ∈ syncingLeads r) then ActivityIndicator
  else if from_option syncedToHubSpot false lead then CheckCircle
  else Zap.

(** The [canSync] property handed to the card of [lead]. *)
Definition canSync (r : ScreenState) (lead : Lead) : bool :=
  isConfigured r && negb (bool_decide (id lead ∈ syncingLeads r)).

(** The condition under which the [Sync All] button is rendered. *)
Definition syncAllRendered (r : ScreenState) : bool :=
  isConfigured r && bool_decide (0 < length (leads r)).

(** The properties one [LeadCard] is rendered with. *)
Record LeadCardProps := {
  card_key : JsString;
  card_lead : Lead;
  card_onSync : Proc unit;
  card_syncIcon : StatusIcon;
  card_canSync : bool
}.

(** [leads.map(lead => <LeadCard ... />)] *)
Definition leadCards (r : ScreenState) : list LeadCardProps :=
  (λ lead, {| card_key := id lead;
              card_lead := lead;
              card_onSync := handleSyncLead r (id lead);
              card_syncIcon := getSyncStatusIcon r (id lead);
              card_canSync := canSync r lead |}) <$> leads r.

(** The two counters of the statistics row. *)
Definition leadsFound (r : ScreenState) : nat := length (leads r).

Definition syncedCount (r : ScreenState) : nat :=
  length (List.filter (λ l, syncedToHubSpot l) (leads r)).

(** [{error && ...}]: the error banner; an empty message is falsy. *)
Definition errorRendered (r : ScreenState) : bool :=
  from_option truthy false (error r).

(** [{leads.length > 0 && ...}]: the [Clear Results] action. *)
Definition clearRendered (r : ScreenState) : bool :=
  bool_decide (0 < length (leads r)).

(** [{leads.length === 0 && !isLoading && !error && ...}]: the empty state;
    [isLoading] comes from [useLeadSourcingStore]. *)
Definition emptyStateRendered (r : ScreenState) (isLoading : bool) : bool :=
  (length (leads r) =? 0)%nat && negb isLoading && negb (errorRendered r).

(** ** The world the handlers run in *)

(** One call of [Alert.alert]. *)
Record Notice := {
  title : JsString;
  message : JsString;
  buttons : list (AlertButton (Proc unit))
}.

(** The CRM gateway as seen from outside: a write is started, and later it
    settles. *)
Inductive CrmEvent :=
| Called (leadId : JsString)
| Settled (leadId : JsString) (o : GatewayOutcome).

Record World := {
  screen : ScreenState;
  notices : list Notice;
  crmLog : list CrmEvent;
  discoveryLog : list JsString
}.

Definition withLeads (ls : list Lead) (e : option JsString) (s : ScreenState)
    : ScreenState :=
  {| leads := ls; error := e; isConfigured := isConfigured s;
     searchQuery := searchQuery s; syncingLeads := syncingLeads s |}.

Definition withSyncingLeads (f : gset JsString → gset JsString) (s : ScreenState)
    : ScreenState :=
  {| leads := leads s; error := error s; isConfigured := isConfigured s;
     searchQuery := searchQuery s; syncingLeads := f (syncingLeads s) |}.

Definition onScreen (f : ScreenState → ScreenState) (w : World) : World :=
  {| screen := f (screen w); notices := notices w; crmLog := crmLog w;
     discoveryLog := discoveryLog w |}.

Definition notify (n : Notice) (w : World) : World :=
  {| screen := screen w; notices := notices w ++ [n]; crmLog := crmLog w;
     discoveryLog := discoveryLog w |}.

Definition logCrm (e : CrmEvent) (w : World) : World :=
  {| screen := screen w; notices := notices w; crmLog := crmLog w ++ [e];
     discoveryLog := discoveryLog w |}.

Definition logDiscovery (q : JsString) (w : World) : World :=
  {| screen := screen w; notices := notices w; crmLog := crmLog w;
     discoveryLog := discoveryLog w ++ [q] |}.

(** Modelled from the spec: [syncLeadToHubSpot] is an action of
    [hooks/useHubSpotStore], which is not among the sources; what a
    successful write does to the lead store is taken from §4.1,
    [setSynced(leadId)]: the lead with that identifier, if still present,
    gets [syncedToHubSpot = true]. *)
Definition setSynced (leadId : JsString) (ls : list Lead) : list Lead :=
  (λ l, if bool_decide (id l = leadId)
        then {| id := id l; syncedToHubSpot := true |} else l) <$> ls.

(** Modelled from the spec: the store side of a settled write; §4.3 steps 4
    and 5: only a success touches the lead store. *)
Definition crmSettled (leadId : JsString) (o : GatewayOutcome) (w : World) : World :=
  let w' := logCrm (Settled leadId o) w in
  match o with
  | Resolved true =>
      onScreen (λ s, withLeads (setSynced leadId (leads s)) (error s) s) w'
  | _ => w'
  end.

(** Modelled from the spec: [searchLeads] is an action of
    [hooks/useLeadSourcingStore], which is not among the sources; §4.1: a
    successful search replaces the collection and clears the error, a failed
    one sets the error and keeps the leads. *)
Definition searchSettled (o : SearchOutcome) (w : World) : World :=
  match o with
  | Found ls => onScreen (withLeads ls None) w
  | SearchFailed m => onScreen (λ s, withLeads (leads s) (Some m) s) w
  end.

(** ** Running a handler up to its next [await] *)

Inductive Completion (A : Type) :=
| Returned (a : A)
| Threw (e : JsValue).
Arguments Returned {A}.
Arguments Threw {A}.

Inductive Status (A : Type) :=
| Finished (c : Completion A)
| AwaitingSync (leadId : JsString) (k : GatewayOutcome → Proc A)
| AwaitingSearch (query : JsString) (k : Proc A).
Arguments Finished {A}.
Arguments AwaitingSync {A}.
Arguments AwaitingSearch {A}.

(** The synchronous part of a task: state updates and alerts happen at
    once; at an awaited store call the call is started and the task is
    suspended. *)
Fixpoint advance {A} (p : Proc A) (w : World) : Status A * World :=
  match p with
  | Ret a => (Finished (Returned a), w)
  | Throw e => (Finished (Threw e), w)
  | SetSyncingLeads f k => advance k (onScreen (withSyncingLeads f) w)
  | AlertAlert t m bs k =>
      advance k (notify {| title := t; message := m; buttons := bs |} w)
  | SyncLeadToHubSpot i k => (AwaitingSync i k, logCrm (Called i) w)
  | SearchLeads q k => (AwaitingSearch q k, logDiscovery q w)
  end.

(** The gateway settles a pending write with [o]; the suspended task goes
    on from the world as it is by then. *)
Definition resumeSync {A} (leadId : JsString) (k : GatewayOutcome → Proc A)
    (o : GatewayOutcome) (w : World) : Status A * World :=
  advance (k o) (crmSettled leadId o w).

(** Pressing a button of an alert runs its handler, if it has one. *)
Definition press (b : AlertButton (Proc unit)) : Proc unit :=
  default (Ret tt) (onPress b).

(** The user presses the button labelled [label] of the alert on top. *)
Definition choose (label : string) (w : World) : Proc unit :=
  match last (notices w) with
  | Some n =>
      from_option press (Ret tt)
        (List.find (λ b, bool_decide (text b = lit label)) (buttons n))
  | None => Ret tt
  end.

(** ** Running a handler to completion *)

(** Scripted collaborators: the outcome of the first, second, ... call from
    now on. *)
Record Collaborators := {
  crm : nat → GatewayOutcome;
  discovery : nat → SearchOutcome
}.

Definition afterCrm (env : Collaborators) : Collaborators :=
  {| crm := λ n, crm env (S n); discovery := discovery env |}.

Definition afterDiscovery (env : Collaborators) : Collaborators :=
  {| crm := crm env; discovery := λ n, discovery env (S n) |}.

(** One task alone with its collaborators: every awaited call settles
    before anything else happens. *)
Fixpoint exec {A} (p : Proc A) (env : Collaborators) (w : World)
    : Completion A * World * Collaborators :=
  match p with
  | Ret a => (Returned a, w, env)
  | Throw e => (Threw e, w, env)
  | SetSyncingLeads f k => exec k env (onScreen (withSyncingLeads f) w)
  | AlertAlert t m bs k =>
      exec k env (notify {| title := t; message := m; buttons := bs |} w)
  | SyncLeadToHubSpot i k =>
      let o := crm env 0 in
      exec (k o) (afterCrm env) (crmSettled i o (logCrm (Called i) w))
  | SearchLeads q k =>
      exec k (afterDiscovery env) (searchSettled (discovery env 0) (logDiscovery q w))
  end.

(** A task after the first [n] calls it awaits have settled, up to its
    next [await]. *)
Fixpoint advanceAfter {A} (n : nat) (p : Proc A) (env : Collaborators) (w : World)
    : Status A * World :=
  match n with
  | 0 => advance p w
  | S n' =>
      match advance p w with
      | (AwaitingSync i k, w') =>
          advanceAfter n' (k (crm env 0)) (afterCrm env)
            (crmSettled i (crm env 0) w')
      | (AwaitingSearch q k, w') =>
          advanceAfter n' k (afterDiscovery env)
            (searchSettled (discovery env 0) w')
      | (Finished c, w') => (Finished c, w')
      end
  end.

(** ** The notices of the screen *)

Definition plain (t m : string) : Notice :=
  {| title := lit t; message := lit m; buttons := [] |}.

Definition InvalidQuery : Notice := plain "Error" "Please enter a search query".
Definition NotConfigured : Notice :=
  plain "Error" "HubSpot is not configured. Please configure it in Settings.".
Definition SyncSucceeded : Notice :=
  plain "Success" "Lead synced to HubSpot successfully".
Definition SyncFailed : Notice := plain "Error" "Failed to sync lead to HubSpot".
Definition SyncThrew (error : JsValue) : Notice :=
  {| title := lit "Error";
     message := lit "Sync failed: " ++
                match error with
                | ErrorObject m => m
                | NonError => lit "Unknown error occurred"
                end;
     buttons := [] |}.

(** The notice [handleSyncLead] raises for an outcome of the gateway. *)
Definition syncNotice (o : GatewayOutcome) : Notice :=
  match o with
  | Resolved true => SyncSucceeded
  | Resolved false => SyncFailed
  | Rejected e => SyncThrew e
  end.

Definition cancelButton : AlertButton (Proc unit) :=
  {| text := lit "Cancel"; style := Some Cancel; onPress := None |}.

Definition syncAllButton (r : ScreenState) : AlertButton (Proc unit) :=
  {| text := lit "Sync All"; style := None; onPress := Some (syncAllOnPress r) |}.

(** [w'] is [w] with the notice [n] raised and nothing else: no state of
    the screen changed, no collaborator called. *)
Definition onlyNotice (n : Notice) (w w' : World) : Prop :=
  notices w' = notices w ++ [n]
  ∧ screen w' = screen w
  ∧ crmLog w' = crmLog w
  ∧ discoveryLog w' = discoveryLog w.

(** ** Worlds after a sync and after a batch *)

(** The world after one complete [handleSyncLead] whose write settled with
    [o], nothing else happening in between. *)
Definition synced (leadId : JsString) (o : GatewayOutcome) (w : World) : World :=
  onScreen (withSyncingLeads (λ prev, prev ∖ {[leadId]}))
    (notify (syncNotice o)
       (crmSettled leadId o
          (logCrm (Called leadId)
             (onScreen (withSyncingLeads (λ prev, prev ∪ {[leadId]})) w)))).

(** What the rest of [handleSyncLead] does once its write has settled:
    the notice, then the removal from the Sync Attempt Set. *)
Definition released (leadId : JsString) (o : GatewayOutcome) (w : World) : World :=
  onScreen (withSyncingLeads (λ prev, prev ∖ {[leadId]}))
    (notify (syncNotice o) (crmSettled leadId o w)).

(** The world after the loop of [syncAllOnPress] over [ls]: one complete
    sync after the other. *)
Fixpoint syncedAll (ls : list Lead) (env : Collaborators) (w : World) : World :=
  match ls with
  | [] => w
  | l :: ls' => syncedAll ls' (afterCrm env) (synced (id l) (crm env 0) w)
  end.

(** Whether the write succeeded: the promise resolved with [true]. *)
Definition isSuccess (o : GatewayOutcome) : bool :=
  match o with Resolved true => true | _ => false end.

(** The writes started so far, oldest first. *)
Definition calls (log : list CrmEvent) : list JsString :=
  omap (λ e, match e with Called i => Some i | Settled _ _ => None end) log.

(** The identifiers of the leads of a batch whose write succeeded. *)
Fixpoint successes (ls : list Lead) (env : Collaborators) : list JsString :=
  match ls with
  | [] => []
  | l :: ls' =>
      (if isSuccess (crm env 0) then [id l] else []) ++ successes ls' (afterCrm env)
  end.

Definition markSynced (done : list JsString) (l : Lead) : Lead :=
  if bool_decide (id l ∈ done)
  then {| id := id l; syncedToHubSpot := true |} else l.

(** ** The report of the spec *)

(** The SyncBatchReport of §4.3, step 3, written after the spec: counts of
    attempted, succeeded and failed leads, and the failures in order, each
    with its lead identifier and error message. *)
Record SyncBatchReport := {
  attempted : nat;
  succeeded : nat;
  failed : nat;
  failures : list (JsString * JsString)
}.

Definition spec_errorMessage (o : GatewayOutcome) : JsString :=
  match o with
  | Rejected (ErrorObject m) => m
  | Rejected NonError => lit "Unknown error occurred"
  | Resolved _ => lit "Failed to sync lead to HubSpot"
  end.

Fixpoint spec_failures (ls : list Lead) (env : Collaborators)
    : list (JsString * JsString) :=
  match ls with
  | [] => []
  | l :: ls' =>
      (if isSuccess (crm env 0) then []
       else [(id l, spec_errorMessage (crm env 0))])
      ++ spec_failures ls' (afterCrm env)
  end.

Definition spec_syncAll (ls : list Lead) (env : Collaborators) : SyncBatchReport :=
  let fs := spec_failures ls env in
  {| attempted := length ls;
     succeeded := length ls - length fs;
     failed := length fs;
     failures := fs |}.

(** ** Scenarios *)

Definition lead (name : string) (flag : bool) : Lead :=
  {| id := lit name; syncedToHubSpot := flag |}.

(** A world in which nothing has happened yet. *)
Definition start (s : ScreenState) : World :=
  {| screen := s; notices := []; crmLog := []; discoveryLog := [] |}.

(** Three leads found, none synced, the gateway configured (§8). *)
Definition threeLeads : ScreenState :=
  {| leads := [lead "L1" false; lead "L2" false; lead "L3" false];
     error := None; isConfigured := true;
     searchQuery := lit "Oil and Gas Oklahoma Kansas"; syncingLeads := ∅ |}.

(** Nothing found yet, the gateway not configured. *)
Definition unconfigured : ScreenState :=
  {| leads := []; error := None; isConfigured := false;
     searchQuery := lit "Oil and Gas Oklahoma Kansas"; syncingLeads := ∅ |}.

(** The search box holds blanks only: spaces, a tab, a no-break space, an
    EM SPACE and a line feed; the gateway is configured, nothing found. *)
Definition blankQuery : ScreenState :=
  {| leads := []; error := None; isConfigured := true;
     searchQuery := [32; 32; 9; 160; 8195; 10]%N; syncingLeads := ∅ |}.

(** L1 is synced already and in flight again, L2 is synced and idle. *)
Definition resyncing : ScreenState :=
  {| leads := [lead "L1" true; lead "L2" true; lead "L3" false];
     error := None; isConfigured := true;
     searchQuery := lit "Oil and Gas Oklahoma Kansas";
     syncingLeads := {[ lit "L1" ]} |}.

(** Two leads carry the identifier L1: the first is not synced, the second
    is. *)
Definition twins : ScreenState :=
  {| leads := [lead "L1" false; lead "L1" true];
     error := None; isConfigured := true;
     searchQuery := lit "Oil and Gas Oklahoma Kansas"; syncingLeads := ∅ |}.

(** The gateway answers the calls listed in [bad] (counted from 0) with
    [o], all others with success. *)
Definition failing (bad : list nat) (o : GatewayOutcome) : Collaborators :=
  {| crm := λ n, if bool_decide (n ∈ bad) then o else Resolved true;
     discovery := λ _, Found [] |}.

(** The user has tapped the sync action of L1 and the gateway has not
    answered yet. *)
Definition firstSyncPending : World :=
  (advance (handleSyncLead threeLeads (lit "L1")) (start threeLeads)).2.

(** * Part II: laws of the semantics *)

(** A decidable fact about a concrete scenario, settled by evaluation. *)
Ltac by_evaluation := apply (bool_decide_unpack _); vm_compute; exact I.

Lemma exec_bind {A B} (p : Proc A) (f : A → Proc B) env w :
  exec (p ≫= f) env w =
  match exec p env w with
  | (Returned a, w', env') => exec (f a) env' w'
  | (Threw e, w', env') => (Threw e, w', env')
  end.
Proof.
  revert B f env w.
  induction p as [A a|A e|A g k IH|A t m bs k IH|A i k IH|A q k IH];
    intros B f env w; cbn; try reflexivity; apply IH.
Qed.

(** [exec] is [advance] with every pending call settled at once. *)
Lemma exec_advance {A} (p : Proc A) env w :
  exec p env w =
  match advance p w with
  | (Finished c, w') => (c, w', env)
  | (AwaitingSync i k, w') =>
      exec (k (crm env 0)) (afterCrm env) (crmSettled i (crm env 0) w')
  | (AwaitingSearch q k, w') =>
      exec k (afterDiscovery env) (searchSettled (discovery env 0) w')
  end.
Proof.
  revert env w.
  induction p as [A a|A e|A g k IH|A t m bs k IH|A i k IH|A q k IH];
    intros env w; cbn; try reflexivity; apply IH.
Qed.

Lemma onlyNotice_notify n w : onlyNotice n w (notify n w).
Proof. by repeat split. Qed.

(** ** One sync *)

Lemma exec_handleSyncLead_off r leadId env w :
  isConfigured r = false →
  exec (handleSyncLead r leadId) env w = (Returned tt, notify NotConfigured w, env).
Proof. intros Hc. unfold handleSyncLead. rewrite Hc. reflexivity. Qed.

Lemma crmLog_synced i o w :
  crmLog (synced i o w) = crmLog w ++ [Called i; Settled i o].
Proof. destruct o as [[]|e]; cbn; by rewrite <- app_assoc. Qed.

Lemma notices_synced i o w :
  notices (synced i o w) = notices w ++ [syncNotice o].
Proof. by destruct o as [[]|e]. Qed.

Lemma syncingLeads_synced i o w :
  syncingLeads (screen (synced i o w)) = syncingLeads (screen w) ∖ {[i]}.
Proof. destruct o as [[]|e]; cbn; set_solver. Qed.

Lemma leads_synced i o w :
  leads (screen (synced i o w)) =
  if isSuccess o then setSynced i (leads (screen w)) else leads (screen w).
Proof. by destruct o as [[]|e]. Qed.

(** The handlers of a rendering in which the gateway is configured. *)
Section Configured.
Context (r : ScreenState) (Hc : isConfigured r = true).

(** [handleSyncLead] up to its [await], and from there to its end. *)
Lemma advance_handleSyncLead leadId w :
  ∃ k, advance (handleSyncLead r leadId) w =
         (AwaitingSync leadId k,
          logCrm (Called leadId)
            (onScreen (withSyncingLeads (λ prev, prev ∪ {[leadId]})) w))
       ∧ ∀ o w', advance (k o) w' =
           (Finished (Returned tt),
            onScreen (withSyncingLeads (λ prev, prev ∖ {[leadId]}))
              (notify (syncNotice o) w')).
Proof.
  unfold handleSyncLead. rewrite Hc. cbn.
  eexists. split; [reflexivity|].
  intros [[]|[]] w'; reflexivity.
Qed.

Lemma exec_handleSyncLead leadId env w :
  exec (handleSyncLead r leadId) env w =
  (Returned tt, synced leadId (crm env 0) w, afterCrm env).
Proof.
  unfold handleSyncLead. rewrite Hc. cbn.
  destruct (crm env 0) as [[]|[]]; reflexivity.
Qed.

(** ** A batch *)

Lemma exec_forOf_handleSyncLead ls env w :
  ∃ env', exec (forOf ls (λ lead, handleSyncLead r (id lead))) env w =
          (Returned tt, syncedAll ls env w, env').
Proof.
  revert env w. induction ls as [|l ls IH]; intros env w.
  - eexists. reflexivity.
  - cbn [forOf syncedAll]. rewrite exec_bind, exec_handleSyncLead.
    apply IH.
Qed.

(** The loop starts the write of its first lead and is suspended on it;
    it goes on to the next lead when, and only when, that write has
    settled. *)
Lemma advance_forOf_cons l ls w :
  ∃ k, advance (forOf (l :: ls) (λ lead, handleSyncLead r (id lead))) w =
         (AwaitingSync (id l) k,
          logCrm (Called (id l))
            (onScreen (withSyncingLeads (λ prev, prev ∪ {[id l]})) w))
       ∧ ∀ o w', resumeSync (id l) k o w' =
                 advance (forOf ls (λ lead, handleSyncLead r (id lead)))
                         (released (id l) o w').
Proof.
  cbn [forOf]. unfold handleSyncLead. rewrite Hc. cbn.
  eexists. split; [reflexivity|].
  intros [[]|[]] w'; reflexivity.
Qed.

(** Past its two checks, [handleSyncAllLeads] raises the confirmation. *)
Lemma advance_handleSyncAllLeads w :
  leads r ≠ [] →
  ∃ n, advance (handleSyncAllLeads r) w = (Finished (Returned tt), notify n w)
       ∧ title n = lit "Sync All Leads"
       ∧ buttons n = [cancelButton; syncAllButton r].
Proof.
  intros Hne. unfold handleSyncAllLeads. rewrite Hc. cbn [negb].
  destruct (leads r) as [|l ls] eqn:Hl; [done|]. cbn [length Nat.eqb].
  eexists. split; [reflexivity|]. split; reflexivity.
Qed.
(** What the user confirms by choosing [Sync All] is the loop over the
    leads of this rendering. *)
Lemma choose_syncAll w :
  leads r ≠ [] →
  choose "Sync All" (advance (handleSyncAllLeads r) w).2 = syncAllOnPress r.
Proof.
  intros Hne. destruct (advance_handleSyncAllLeads w Hne) as (n & -> & _ & Hb).
  unfold choose. cbn [snd notify notices]. by rewrite last_snoc, Hb.
Qed.
End Configured.

Lemma crmLog_syncedAll ls env w :
  crmLog (syncedAll ls env w) =
  crmLog w ++ mjoin (imap (λ j l, [Called (id l); Settled (id l) (crm env j)]) ls).
Proof.
  revert env w. induction ls as [|l ls IH]; intros env w; cbn [syncedAll].
  - cbn. by rewrite app_nil_r.
  - rewrite IH, crmLog_synced, <- app_assoc. reflexivity.
Qed.

Lemma notices_syncedAll ls env w :
  notices (syncedAll ls env w) =
  notices w ++ imap (λ j _, syncNotice (crm env j)) ls.
Proof.
  revert env w. induction ls as [|l ls IH]; intros env w; cbn [syncedAll].
  - cbn. by rewrite app_nil_r.
  - rewrite IH, notices_synced, <- app_assoc. reflexivity.
Qed.

(** After a batch none of its leads is marked in flight. *)
Lemma syncingLeads_syncedAll ls env w :
  syncingLeads (screen (syncedAll ls env w)) =
  syncingLeads (screen w) ∖ list_to_set (id <$> ls).
Proof.
  revert env w. induction ls as [|l ls IH]; intros env w; cbn [syncedAll].
  - cbn. set_solver.
  - rewrite IH, syncingLeads_synced. cbn. set_solver.
Qed.

Lemma calls_app l1 l2 : calls (l1 ++ l2) = calls l1 ++ calls l2.
Proof. apply omap_app. Qed.

Lemma calls_syncedAll ls env w :
  calls (crmLog (syncedAll ls env w)) = calls (crmLog w) ++ (id <$> ls).
Proof.
  revert env w. induction ls as [|l ls IH]; intros env w; cbn [syncedAll].
  - cbn. by rewrite app_nil_r.
  - rewrite IH, crmLog_synced, calls_app, <- app_assoc. reflexivity.
Qed.

(** ** The flags after a batch *)

Lemma markSynced_nil l : markSynced [] l = l.
Proof. unfold markSynced. rewrite bool_decide_eq_false_2; [done|]. apply not_elem_of_nil. Qed.

Lemma markSynced_setSynced i done ls :
  markSynced done <$> setSynced i ls = markSynced (i :: done) <$> ls.
Proof.
  unfold setSynced. rewrite <- list_fmap_compose. apply list_fmap_ext.
  intros _ l _. unfold markSynced, compose.
  destruct (decide (id l = i)) as [He|Hne].
  - rewrite (bool_decide_eq_true_2 _ He). cbn.
    rewrite (bool_decide_eq_true_2 (id l ∈ i :: done)) by (rewrite He; left).
    by case_bool_decide.
  - rewrite (bool_decide_eq_false_2 _ Hne).
    do 2 case_bool_decide; try done; set_solver.
Qed.

Lemma leads_syncedAll ls env w :
  leads (screen (syncedAll ls env w)) =
  markSynced (successes ls env) <$> leads (screen w).
Proof.
  revert env w. induction ls as [|l ls IH]; intros env w; cbn [syncedAll successes].
  - rewrite <- (list_fmap_id (leads (screen w))) at 1.
    apply list_fmap_ext. intros _ x _. by rewrite markSynced_nil.
  - rewrite IH, leads_synced. destruct (isSuccess (crm env 0)); [|done].
    apply markSynced_setSynced.
Qed.

Lemma elem_of_successes i ls env :
  i ∈ successes ls env ↔
  ∃ j l, ls !! j = Some l ∧ id l = i ∧ isSuccess (crm env j) = true.
Proof.
  revert env. induction ls as [|l ls IH]; intros env; cbn [successes].
  - split; [by intros ?%elem_of_nil|]. by intros (j & l & ? & _).
  - rewrite elem_of_app, IH. split.
    + intros [Hi|(j & l' & Hj & Hid & Hs)].
      * destruct (isSuccess (crm env 0)) eqn:Hs; [|by apply elem_of_nil in Hi].
        apply list_elem_of_singleton in Hi as ->. by exists 0, l.
      * by exists (S j), l'.
    + intros ([|j] & l' & Hj & Hid & Hs).
      * left. cbn in Hj. injection Hj as ->. rewrite Hs, Hid. by left.
      * right. by exists j, l'.
Qed.

(** With distinct identifiers, the flag of the lead at position [j] of the
    batch is raised exactly when the write of that lead succeeded. *)
Lemma flag_syncedAll ls env w j lead :
  leads (screen w) = ls → NoDup (id <$> ls) → ls !! j = Some lead →
  leads (screen (syncedAll ls env w)) !! j =
  Some {| id := id lead;
          syncedToHubSpot := syncedToHubSpot lead || isSuccess (crm env j) |}.
Proof.
  intros Hw Hnd Hj. rewrite leads_syncedAll, Hw, list_lookup_fmap, Hj. cbn.
  f_equal. unfold markSynced. case_bool_decide as Hin.
  - apply elem_of_successes in Hin as (j' & l' & Hj' & Hid & Hs).
    assert (j' = j) as ->.
    { eapply NoDup_lookup; [exact Hnd| |];
        rewrite list_lookup_fmap; [rewrite Hj'|rewrite Hj]; cbn; by f_equal. }
    rewrite Hs. by rewrite orb_true_r.
  - destruct (isSuccess (crm env j)) eqn:Hs.
    + exfalso. apply Hin, elem_of_successes. by exists j, lead.
    + rewrite orb_false_r. by destruct lead.
Qed.

(** ** Looking a lead up by its identifier *)

Lemma findLead_unique ls lead :
  lead ∈ ls → NoDup (id <$> ls) → findLead ls (id lead) = Some lead.
Proof.
  unfold findLead. induction ls as [|l ls IH]; intros Hin Hnd.
  - by apply elem_of_nil in Hin.
  - cbn. apply NoDup_cons in Hnd as [Hl Hnd]. case_bool_decide as He.
    + apply elem_of_cons in Hin as [->|Hin]; [done|].
      exfalso. apply Hl. rewrite He. apply list_elem_of_fmap. by exists lead.
    + apply elem_of_cons in Hin as [->|Hin]; [done|]. by apply IH.
Qed.

(** ** The definitions at work *)

Example trim_both_ends :
  trim (lit "  Oil and Gas  ") = lit "Oil and Gas"
  ∧ trim (searchQuery blankQuery) = []
  ∧ numberToString 12 = lit "12".
Proof. repeat split; reflexivity. Qed.

(** A query that is not blank goes to the discovery call as typed. *)
Example handleSearch_calls_discovery :
  ∃ k w', advance (handleSearch threeLeads) (start threeLeads)
          = (AwaitingSearch (lit "Oil and Gas Oklahoma Kansas") k, w')
          ∧ discoveryLog w' = [lit "Oil and Gas Oklahoma Kansas"]
          ∧ notices w' = [].
Proof. eexists _, _. repeat split; reflexivity. Qed.

(** The wording of the confirmation for three leads. *)
Example prompt_for_three_leads :
  message <$> notices (advance (handleSyncAllLeads threeLeads) (start threeLeads)).2
  = [lit "This will sync 3 leads to HubSpot. Continue?"].
Proof. reflexivity. Qed.

(** The scenario of §8: L1, L2, L3 with the gateway failing on L2 only. *)
Example scenario_L2_fails :
  let w' := (exec (syncAllOnPress threeLeads) (failing [1] (Resolved false))
                  (start threeLeads)).1.2 in
  leads (screen w') = [lead "L1" true; lead "L2" false; lead "L3" true]
  ∧ syncingLeads (screen w') = ∅
  ∧ title <$> notices w' = [lit "Success"; lit "Error"; lit "Success"].
Proof. repeat split; vm_compute; reflexivity. Qed.

(** An identifier that is not in the collection shows the sync prompt. *)
Example icon_of_unknown_lead : getSyncStatusIcon threeLeads (lit "L9") = Zap.
Proof. reflexivity. Qed.

(** A thrown [Error] shows its message, any other thrown value does not. *)
Example notices_of_thrown_values :
  message (syncNotice (Rejected (ErrorObject (lit "timeout"))))
  = lit "Sync failed: timeout"
  ∧ message (syncNotice (Rejected NonError))
    = lit "Sync failed: Unknown error occurred".
Proof. split; reflexivity. Qed.

(** * Part III: the claims *)

(** C1, as the claim has it, fails: with the sync of L1 in flight (L1 is in
    the Sync Attempt Set), a second [handleSyncLead] for L1, made from the
    rendering that shows L1 in flight, raises no notice and starts a second
    gateway write: both overlapping calls reach the gateway. *)
Lemma second_overlapping_sync_reaches_gateway :
  lit "L1" ∈ syncingLeads (screen firstSyncPending)
  ∧ crmLog firstSyncPending = [Called (lit "L1")]
  ∧ ∃ k w2,
      advance (handleSyncLead (screen firstSyncPending) (lit "L1")) firstSyncPending
      = (AwaitingSync (lit "L1") k, w2)
      ∧ crmLog w2 = [Called (lit "L1"); Called (lit "L1")]
      ∧ notices w2 = [].
Proof.
  split; [by_evaluation|].
  split; [reflexivity|].
  eexists _, _. split; [reflexivity|]. split; reflexivity.
Qed.

(** C1 (amended). For every lead identifier, a [handleSyncLead] call for
    an identifier whose sync is already in flight is not turned down:
    there is no in-flight check and no AlreadyInFlight result.  With the
    gateway configured, every call raises no notice and starts a gateway
    write, whether or not the identifier is in the Sync Attempt Set
    already (in which case the set stays as it is); so of two overlapping
    calls for the same identifier both reach the gateway. *)
Theorem handleSyncLead_makes_no_in_flight_check (r : ScreenState)
    (leadId : JsString) (w : World) :
  isConfigured r = true →
  ∃ k w',
    advance (handleSyncLead r leadId) w = (AwaitingSync leadId k, w')
    ∧ crmLog w' = crmLog w ++ [Called leadId]
    ∧ notices w' = notices w
    ∧ syncingLeads (screen w') = syncingLeads (screen w) ∪ {[leadId]}
    ∧ (leadId ∈ syncingLeads (screen w) →
       syncingLeads (screen w') = syncingLeads (screen w))
    ∧ ∀ r2, isConfigured r2 = true →
        ∃ k2 w2,
          advance (handleSyncLead r2 leadId) w' = (AwaitingSync leadId k2, w2)
          ∧ crmLog w2 = crmLog w ++ [Called leadId; Called leadId]
          ∧ notices w2 = notices w
          ∧ syncingLeads (screen w2) = syncingLeads (screen w').
Proof.
  intros Hc.
  destruct (advance_handleSyncLead r Hc leadId w) as (k & Hk & _).
  eexists k, _. split; [exact Hk|]. cbn.
  split; [done|]. split; [done|]. split; [done|]. split; [set_solver|].
  intros r2 Hc2.
  destruct (advance_handleSyncLead r2 Hc2 leadId
              (logCrm (Called leadId)
                 (onScreen (withSyncingLeads (λ prev, prev ∪ {[leadId]})) w)))
    as (k2 & Hk2 & _).
  eexists k2, _. split; [exact Hk2|]. cbn.
  split; [by rewrite <- app_assoc|]. split; [done|]. set_solver.
Qed.

Lemma handleSyncLead_makes_no_in_flight_check_witness :
  isConfigured (screen firstSyncPending) = true
  ∧ lit "L1" ∈ syncingLeads (screen firstSyncPending)
  ∧ ∃ k w',
      advance (handleSyncLead (screen firstSyncPending) (lit "L1")) firstSyncPending
      = (AwaitingSync (lit "L1") k, w')
      ∧ crmLog w' = crmLog firstSyncPending ++ [Called (lit "L1")]
      ∧ notices w' = notices firstSyncPending
      ∧ syncingLeads (screen w') = syncingLeads (screen firstSyncPending).
Proof.
  assert (Hin : lit "L1" ∈ syncingLeads (screen firstSyncPending))
    by by_evaluation.
  split; [reflexivity|]. split; [exact Hin|].
  destruct (handleSyncLead_makes_no_in_flight_check
              (screen firstSyncPending) (lit "L1") firstSyncPending eq_refl)
    as (k & w' & Ha & Hl & Hn & _ & Hs & _).
  exists k, w'. split; [exact Ha|]. split; [exact Hl|]. split; [exact Hn|].
  exact (Hs Hin).
Defined.

(** C2. Whatever the outcome of the gateway call (resolved with true,
    resolved with false, or rejected with any thrown value), and whatever
    the world has become while the call was pending, [handleSyncLead]
    returns normally and the identifier is not in the Sync Attempt Set when
    it does: the removal in [finally] is unconditional.  In particular a
    sync run on its own never leaves its lead marked in flight. *)
Theorem handleSyncLead_always_releases (r : ScreenState) (leadId : JsString)
    (w : World) :
  isConfigured r = true →
  (∃ k w1,
     advance (handleSyncLead r leadId) w = (AwaitingSync leadId k, w1)
     ∧ leadId ∈ syncingLeads (screen w1)
     ∧ ∀ (o : GatewayOutcome) (w2 : World),
         ∃ w3, resumeSync leadId k o w2 = (Finished (Returned tt), w3)
               ∧ (leadId ∉ syncingLeads (screen w3))
               ∧ syncingLeads (screen w3) = syncingLeads (screen w2) ∖ {[leadId]})
  ∧ (∀ env,
       ∃ w' env', exec (handleSyncLead r leadId) env w = (Returned tt, w', env')
                  ∧ leadId ∉ syncingLeads (screen w')).
Proof.
  intros Hc. split.
  - destruct (advance_handleSyncLead r Hc leadId w) as (k & Hk & Hres).
    eexists k, _. split; [exact Hk|]. split; [cbn; set_solver|].
    intros o w2. unfold resumeSync. rewrite Hres. eexists. split; [reflexivity|].
    destruct o as [[]|e]; cbn; split; set_solver.
  - intros env. rewrite (exec_handleSyncLead r Hc). eexists _, _.
    split; [reflexivity|]. rewrite syncingLeads_synced. set_solver.
Qed.

Lemma handleSyncLead_always_releases_witness :
  isConfigured threeLeads = true
  ∧ (∃ k w1,
       advance (handleSyncLead threeLeads (lit "L2")) (start threeLeads)
       = (AwaitingSync (lit "L2") k, w1)
       ∧ lit "L2" ∈ syncingLeads (screen w1)
       ∧ ∀ (o : GatewayOutcome) (w2 : World),
           ∃ w3, resumeSync (lit "L2") k o w2 = (Finished (Returned tt), w3)
                 ∧ (lit "L2" ∉ syncingLeads (screen w3))
                 ∧ syncingLeads (screen w3)
                   = syncingLeads (screen w2) ∖ {[lit "L2"]})
  ∧ (∀ env,
       ∃ w' env',
         exec (handleSyncLead threeLeads (lit "L2")) env (start threeLeads)
         = (Returned tt, w', env')
         ∧ lit "L2" ∉ syncingLeads (screen w')).
Proof.
  split; [reflexivity|].
  apply (handleSyncLead_always_releases threeLeads (lit "L2") (start threeLeads)).
  reflexivity.
Defined.

(** C3, as the claim has it, fails: the confirmed bulk sync hands no report
    back.  Its returned value is the same, [undefined], whether all three
    leads succeed or the second one fails, so nothing read from it can be
    the report of the spec, whose counts differ between the two runs. *)
Lemma syncAll_returns_no_report :
  (exec (syncAllOnPress threeLeads) (failing [1] (Resolved false))
        (start threeLeads)).1.1 = Returned tt
  ∧ spec_syncAll (leads threeLeads) (failing [1] (Resolved false))
    = {| attempted := 3; succeeded := 2; failed := 1;
         failures := [(lit "L2", lit "Failed to sync lead to HubSpot")] |}
  ∧ ¬ ∃ report : Completion unit → SyncBatchReport,
        ∀ env, report (exec (syncAllOnPress threeLeads) env (start threeLeads)).1.1
               = spec_syncAll (leads threeLeads) env.
Proof.
  split; [reflexivity|]. split; [reflexivity|].
  intros [report Hr].
  pose proof (Hr (failing [] (Resolved false))) as H0.
  pose proof (Hr (failing [1] (Resolved false))) as H1.
  change (report (Returned tt) = spec_syncAll (leads threeLeads)
                                   (failing [] (Resolved false))) in H0.
  change (report (Returned tt) = spec_syncAll (leads threeLeads)
                                   (failing [1] (Resolved false))) in H1.
  rewrite H0 in H1. apply (f_equal failed) in H1. vm_compute in H1.
  discriminate H1.
Qed.

(** C3 (amended). The bulk sync returns no report.  The loop the user
    confirms with Sync All leaves behind one notice per lead of the batch,
    in the order of the batch: the success notice where the gateway
    resolved with true, an error notice otherwise (with the message of the
    thrown error when there is one).  For three leads of which only the
    second fails, the notices are success, error, success. *)
Theorem syncAll_one_notice_per_lead (r : ScreenState) (env : Collaborators)
    (w : World) :
  isConfigured r = true →
  (leads r ≠ [] →
   choose "Sync All" (advance (handleSyncAllLeads r) w).2 = syncAllOnPress r)
  ∧ ∃ w' env',
      exec (syncAllOnPress r) env w = (Returned tt, w', env')
      ∧ notices w' = notices w ++ imap (λ j _, syncNotice (crm env j)) (leads r)
      ∧ (∀ o, title (syncNotice o) = lit "Success" ↔ o = Resolved true)
      ∧ (∀ o, title (syncNotice o) = lit "Error" ↔ o ≠ Resolved true)
      ∧ (∀ m, message (syncNotice (Rejected (ErrorObject m)))
              = lit "Sync failed: " ++ m).
Proof.
  intros Hc. split; [apply (choose_syncAll r Hc)|]. unfold syncAllOnPress.
  destruct (exec_forOf_handleSyncLead r Hc (leads r) env w) as [env' He].
  eexists _, env'. split; [exact He|]. split; [apply notices_syncedAll|].
  split; [|split; [|done]]; intros [[]|e]; split; try done; try discriminate.
Qed.

Lemma syncAll_one_notice_per_lead_witness :
  isConfigured threeLeads = true
  ∧ ∃ w' env',
      exec (syncAllOnPress threeLeads) (failing [1] (Resolved false))
           (start threeLeads) = (Returned tt, w', env')
      ∧ notices w' = [SyncSucceeded; SyncFailed; SyncSucceeded].
Proof.
  split; [reflexivity|].
  destruct (syncAll_one_notice_per_lead threeLeads (failing [1] (Resolved false))
              (start threeLeads) eq_refl) as (_ & w' & env' & He & Hn & _).
  exists w', env'. split; [exact He|]. exact Hn.
Defined.

(** C4. The bulk sync, that is the loop the user confirms with Sync All,
    goes through the leads one after the other, in the order of the
    collection, each by one [handleSyncLead]: the gateway sees, for every
    lead in turn, its write started and then settled, every lead exactly
    once.  Step by step: the loop starts the write of the lead in front
    and is suspended on it; only when that write has settled does it go on
    with the remaining leads. *)
Theorem syncAll_sequential_in_order (r : ScreenState) (env : Collaborators)
    (w : World) :
  isConfigured r = true →
  (leads r ≠ [] →
   choose "Sync All" (advance (handleSyncAllLeads r) w).2 = syncAllOnPress r)
  ∧ (∃ w' env',
     exec (syncAllOnPress r) env w = (Returned tt, w', env')
     ∧ crmLog w' =
         crmLog w ++
         mjoin (imap (λ j l, [Called (id l); Settled (id l) (crm env j)]) (leads r))
     ∧ calls (crmLog w') = calls (crmLog w) ++ (id <$> leads r))
  ∧ (∀ l rest, leads r = l :: rest →
       ∃ k w1,
         advance (syncAllOnPress r) w = (AwaitingSync (id l) k, w1)
         ∧ crmLog w1 = crmLog w ++ [Called (id l)]
         ∧ ∀ o w2, resumeSync (id l) k o w2 =
                   advance (forOf rest (λ lead, handleSyncLead r (id lead)))
                           (released (id l) o w2)).
Proof.
  intros Hc. split; [apply (choose_syncAll r Hc)|]. split.
  - unfold syncAllOnPress.
    destruct (exec_forOf_handleSyncLead r Hc (leads r) env w) as [env' He].
    eexists _, env'. split; [exact He|].
    split; [apply crmLog_syncedAll|apply calls_syncedAll].
  - intros l rest Hl. unfold syncAllOnPress. rewrite Hl.
    destruct (advance_forOf_cons r Hc l rest w) as (k & Hk & Hres).
    eexists k, _. split; [exact Hk|]. split; [reflexivity|exact Hres].
Qed.

Lemma syncAll_sequential_in_order_witness :
  isConfigured threeLeads = true
  ∧ ∃ w' env',
      exec (syncAllOnPress threeLeads) (failing [1] (Rejected NonError))
           (start threeLeads) = (Returned tt, w', env')
      ∧ crmLog w' =
          [Called (lit "L1"); Settled (lit "L1") (Resolved true);
           Called (lit "L2"); Settled (lit "L2") (Rejected NonError);
           Called (lit "L3"); Settled (lit "L3") (Resolved true)].
Proof.
  split; [reflexivity|].
  destruct (syncAll_sequential_in_order threeLeads (failing [1] (Rejected NonError))
              (start threeLeads) eq_refl) as (_ & (w' & env' & He & Hl & _) & _).
  exists w', env'. split; [exact He|]. exact Hl.
Defined.

(** C5. A failure does not stop the batch.  Whatever the gateway does on
    each lead (resolve with true, resolve with false, reject), the loop the
    user confirms with Sync All runs to its end without throwing and
    attempts all leads of the batch, the write of each lead settling with
    its own outcome; and, the batch being the current collection with its
    unique identifiers, every lead whose write succeeded ends with
    [syncedToHubSpot] true, every lead whose write failed keeps the flag it
    had (so a false flag remains false). *)
Theorem syncAll_continues_after_failure (r : ScreenState) (env : Collaborators)
    (w : World) :
  isConfigured r = true → leads (screen w) = leads r → NoDup (id <$> leads r) →
  (leads r ≠ [] →
   choose "Sync All" (advance (handleSyncAllLeads r) w).2 = syncAllOnPress r)
  ∧ ∃ w' env',
      exec (syncAllOnPress r) env w = (Returned tt, w', env')
      ∧ calls (crmLog w') = calls (crmLog w) ++ (id <$> leads r)
      ∧ ∀ j l, leads r !! j = Some l →
          Settled (id l) (crm env j) ∈ crmLog w'
          ∧ ∃ l', leads (screen w') !! j = Some l'
                  ∧ id l' = id l
                  ∧ (crm env j = Resolved true → syncedToHubSpot l' = true)
                  ∧ (crm env j ≠ Resolved true →
                     syncedToHubSpot l' = syncedToHubSpot l).
Proof.
  intros Hc Hw Hnd. split; [apply (choose_syncAll r Hc)|]. unfold syncAllOnPress.
  destruct (exec_forOf_handleSyncLead r Hc (leads r) env w) as [env' He].
  eexists _, env'. split; [exact He|]. split; [apply calls_syncedAll|].
  intros j l Hj. split.
  - rewrite crmLog_syncedAll. apply elem_of_app. right.
    apply list_elem_of_join. eexists. split; [|apply list_elem_of_lookup; exists j;
      rewrite list_lookup_imap, Hj; reflexivity].
    right. left.
  - eexists. split; [by apply flag_syncedAll|]. cbn. split; [done|]. split.
    + intros ->. apply orb_true_r.
    + intros Hf. destruct (crm env j) as [[]|e]; [done|apply orb_false_r..].
Qed.

Lemma syncAll_continues_after_failure_witness :
  isConfigured threeLeads = true
  ∧ leads (screen (start threeLeads)) = leads threeLeads
  ∧ NoDup (id <$> leads threeLeads)
  ∧ ∃ w' env',
      exec (syncAllOnPress threeLeads) (failing [1] (Resolved false))
           (start threeLeads) = (Returned tt, w', env')
      ∧ calls (crmLog w') = [lit "L1"; lit "L2"; lit "L3"]
      ∧ ∃ l3, leads (screen w') !! 2%nat = Some l3
              ∧ id l3 = lit "L3" ∧ syncedToHubSpot l3 = true.
Proof.
  assert (Hnd : NoDup (id <$> leads threeLeads))
    by by_evaluation.
  split; [reflexivity|]. split; [reflexivity|]. split; [exact Hnd|].
  destruct (syncAll_continues_after_failure threeLeads
              (failing [1] (Resolved false)) (start threeLeads)
              eq_refl eq_refl Hnd) as (_ & w' & env' & He & Hc & Hf).
  exists w', env'. split; [exact He|]. split; [exact Hc|].
  destruct (Hf 2%nat (lead "L3" false) eq_refl) as (_ & l3 & H3 & Hid & Ht & _).
  exists l3. split; [exact H3|]. split; [exact Hid|]. apply Ht. reflexivity.
Defined.

(** C6. If the gateway is not configured, [handleSyncLead] fails fast with
    the NotConfigured notice and returns: it never suspends on a gateway
    call, and apart from the notice nothing changes: the lead store, the
    Sync Attempt Set and the record of gateway calls stay as they were. *)
Theorem handleSyncLead_not_configured (r : ScreenState) (leadId : JsString)
    (w : World) :
  isConfigured r = false →
  ∃ w', advance (handleSyncLead r leadId) w = (Finished (Returned tt), w')
        ∧ (∀ env, exec (handleSyncLead r leadId) env w = (Returned tt, w', env))
        ∧ onlyNotice NotConfigured w w'.
Proof.
  intros Hc. exists (notify NotConfigured w). split; [|split].
  - unfold handleSyncLead. by rewrite Hc.
  - intros env. by apply exec_handleSyncLead_off.
  - apply onlyNotice_notify.
Qed.

Lemma handleSyncLead_not_configured_witness :
  isConfigured unconfigured = false ∧
  ∃ w', advance (handleSyncLead unconfigured (lit "L9")) (start unconfigured)
        = (Finished (Returned tt), w')
        ∧ (∀ env, exec (handleSyncLead unconfigured (lit "L9")) env (start unconfigured)
                  = (Returned tt, w', env))
        ∧ onlyNotice NotConfigured (start unconfigured) w'.
Proof.
  split; [reflexivity|].
  apply (handleSyncLead_not_configured unconfigured (lit "L9") (start unconfigured)).
  reflexivity.
Defined.



(** C8. A bulk sync is gated by a confirmation: once its preconditions
    hold, [handleSyncAllLeads] only raises the prompt, with the buttons
    Cancel and Sync All, and returns: no gateway call is made and the Sync
    Attempt Set is not touched.  The loop over the leads is the handler of
    Sync All alone; Cancel has no handler, so choosing it changes nothing
    and attempts no sync. *)
Theorem syncAll_gated_by_confirmation (r : ScreenState) (w : World) :
  isConfigured r = true → leads r ≠ [] →
  ∃ prompt cancel confirm,
    (∃ w', advance (handleSyncAllLeads r) w = (Finished (Returned tt), w')
           ∧ onlyNotice prompt w w')
    ∧ buttons prompt = [cancel; confirm]
    ∧ text cancel = lit "Cancel"
    ∧ text confirm = lit "Sync All"
    ∧ onPress confirm = Some (syncAllOnPress r)
    ∧ (∀ w', advance (press cancel) w' = (Finished (Returned tt), w'))
    ∧ (∀ env w', exec (press cancel) env w' = (Returned tt, w', env)).
Proof.
  intros Hc Hne.
  destruct (advance_handleSyncAllLeads r Hc w Hne) as (n & Hadv & _ & Hb).
  exists n, cancelButton, (syncAllButton r). split.
  { eexists. split; [exact Hadv|apply onlyNotice_notify]. }
  by repeat split.
Qed.

Lemma syncAll_gated_by_confirmation_witness :
  isConfigured threeLeads = true ∧ leads threeLeads ≠ [] ∧
  ∃ prompt cancel confirm,
    (∃ w', advance (handleSyncAllLeads threeLeads) (start threeLeads)
           = (Finished (Returned tt), w')
           ∧ onlyNotice prompt (start threeLeads) w')
    ∧ buttons prompt = [cancel; confirm]
    ∧ text cancel = lit "Cancel"
    ∧ text confirm = lit "Sync All"
    ∧ onPress confirm = Some (syncAllOnPress threeLeads)
    ∧ (∀ w', advance (press cancel) w' = (Finished (Returned tt), w'))
    ∧ (∀ env w', exec (press cancel) env w' = (Returned tt, w', env)).
Proof.
  split; [reflexivity|]. split; [discriminate|].
  apply (syncAll_gated_by_confirmation threeLeads (start threeLeads));
    [reflexivity|discriminate].
Defined.

(** C9. The status icon puts in-flight before synced.  For a lead of the
    collection (identifiers being unique in it): if its identifier is in
    the Sync Attempt Set, [getSyncStatusIcon] is the activity indicator,
    whatever its [syncedToHubSpot] flag; if it is not, the icon is the
    check mark exactly when the flag is true, and the sync prompt (the
    zap) otherwise. *)
Theorem getSyncStatusIcon_in_flight_first (r : ScreenState) (l : Lead) :
  l ∈ leads r → NoDup (id <$> leads r) →
  (id l ∈ syncingLeads r → getSyncStatusIcon r (id l) = ActivityIndicator)
  ∧ (id l ∉ syncingLeads r →
       (getSyncStatusIcon r (id l) = CheckCircle ↔ syncedToHubSpot l = true)
       ∧ (getSyncStatusIcon r (id l) = Zap ↔ syncedToHubSpot l ≠ true)).
Proof.
  intros Hin Hnd. unfold getSyncStatusIcon.
  rewrite (findLead_unique _ _ Hin Hnd). cbn. split; intros Hs.
  - by rewrite bool_decide_eq_true_2.
  - rewrite bool_decide_eq_false_2 by done.
    destruct (syncedToHubSpot l); split; split; done.
Qed.

Lemma getSyncStatusIcon_in_flight_first_witness :
  lead "L1" true ∈ leads resyncing ∧ lead "L2" true ∈ leads resyncing
  ∧ NoDup (id <$> leads resyncing)
  ∧ getSyncStatusIcon resyncing (id (lead "L1" true)) = ActivityIndicator
  ∧ getSyncStatusIcon resyncing (id (lead "L2" true)) = CheckCircle.
Proof.
  assert (H1 : lead "L1" true ∈ leads resyncing) by left.
  assert (H2 : lead "L2" true ∈ leads resyncing) by (right; left).
  assert (Hnd : NoDup (id <$> leads resyncing)) by by_evaluation.
  split; [exact H1|]. split; [exact H2|]. split; [exact Hnd|]. split.
  - apply (getSyncStatusIcon_in_flight_first resyncing (lead "L1" true) H1 Hnd).
    by_evaluation.
  - apply (getSyncStatusIcon_in_flight_first resyncing (lead "L2" true) H2 Hnd);
      [by_evaluation|reflexivity].
Defined.

(** C10, as the claim has it, fails in its last part: while the sync of L1
    is in flight its card is disabled, but the [Sync All] button is still
    rendered, and choosing it and confirming starts a second gateway write
    for L1 before the first has settled. *)
Lemma sync_all_offered_while_lead_in_flight :
  lead "L1" false ∈ leads (screen firstSyncPending)
  ∧ lit "L1" ∈ syncingLeads (screen firstSyncPending)
  ∧ canSync (screen firstSyncPending) (lead "L1" false) = false
  ∧ syncAllRendered (screen firstSyncPending) = true
  ∧ let prompted :=
      (advance (handleSyncAllLeads (screen firstSyncPending)) firstSyncPending).2 in
    crmLog (advance (choose "Sync All" prompted) prompted).2
    = [Called (lit "L1"); Called (lit "L1")].
Proof.
  split; [left|]. split; [by_evaluation|].
  repeat split; vm_compute; reflexivity.
Qed.

(** C10 (amended). For every rendered lead, [canSync] is true if and only
    if the gateway is configured and the identifier of the lead is not in
    the Sync Attempt Set; in particular [canSync] is false whenever the
    identifier is in the set. *)
Theorem canSync_iff_configured_and_idle (r : ScreenState) (l : Lead) :
  (canSync r l = true ↔ isConfigured r = true ∧ id l ∉ syncingLeads r)
  ∧ (id l ∈ syncingLeads r → canSync r l = false).
Proof.
  unfold canSync. split; [split|].
  - intros [Hc Hs%negb_true_iff%bool_decide_eq_false]%andb_true_iff. done.
  - intros [-> Hs]. by rewrite bool_decide_eq_false_2.
  - intros Hs. by rewrite bool_decide_eq_true_2, andb_false_r.
Qed.

Lemma canSync_iff_configured_and_idle_witness :
  id (lead "L1" true) ∈ syncingLeads resyncing
  ∧ canSync resyncing (lead "L1" true) = false.
Proof.
  assert (H : id (lead "L1" true) ∈ syncingLeads resyncing)
    by by_evaluation.
  split; [exact H|].
  exact (proj2 (canSync_iff_configured_and_idle resyncing (lead "L1" true)) H).
Defined.

(** * Part IV: further properties of the screen *)

(** ** Blank queries *)

Lemma trimStart_nil s :
  trimStart s = [] ↔ Forall (λ c, isWhiteSpace c = true) s.
Proof.
  induction s as [|c s IH]; cbn.
  - split; [constructor|done].
  - destruct (isWhiteSpace c) eqn:Hc.
    + rewrite IH. split; [by constructor|by inversion 1].
    + split; [done|]. inversion 1; congruence.
Qed.

Lemma trimStart_Forall s :
  Forall (λ c, isWhiteSpace c = true) (trimStart s)
  ↔ Forall (λ c, isWhiteSpace c = true) s.
Proof.
  induction s as [|c s IH]; cbn; [done|].
  destruct (isWhiteSpace c) eqn:Hc; [|done].
  rewrite IH. split; [by constructor|by inversion 1].
Qed.

Lemma trim_nil s : trim s = [] ↔ Forall (λ c, isWhiteSpace c = true) s.
Proof.
  unfold trim, trimEnd. rewrite <- trimStart_Forall, <- Forall_reverse, <- trimStart_nil.
  split; [|by intros ->].
  intros H. apply (f_equal reverse) in H. by rewrite reverse_involutive in H.
Qed.

(** ** Stepping through a batch *)

Lemma advanceAfter_AlertAlert {A} n t m bs (k : Proc A) env w :
  advanceAfter n (AlertAlert t m bs k) env w =
  advanceAfter n k env (notify {| title := t; message := m; buttons := bs |} w).
Proof. by destruct n. Qed.

Lemma advanceAfter_SetSyncingLeads {A} n f (k : Proc A) env w :
  advanceAfter n (SetSyncingLeads f k) env w =
  advanceAfter n k env (onScreen (withSyncingLeads f) w).
Proof. by destruct n. Qed.

Section ConfiguredBatch.
Context (r : ScreenState) (Hc : isConfigured r = true).

(** Once the write of the lead in front has settled, the loop is the loop
    over the remaining leads, run from the world that sync has left. *)
Lemma advanceAfter_forOf_cons n l ls env w :
  advanceAfter (S n) (forOf (l :: ls) (λ lead, handleSyncLead r (id lead))) env w =
  advanceAfter n (forOf ls (λ lead, handleSyncLead r (id lead))) (afterCrm env)
    (synced (id l) (crm env 0) w).
Proof.
  cbn [forOf]. unfold handleSyncLead. rewrite Hc. cbn.
  destruct (crm env 0) as [[]|[]]; cbn;
    by rewrite advanceAfter_AlertAlert, advanceAfter_SetSyncingLeads.
Qed.

Lemma advanceAfter_forOf ls j l env w :
  ls !! j = Some l →
  ∃ k, advanceAfter j (forOf ls (λ lead, handleSyncLead r (id lead))) env w =
       (AwaitingSync (id l) k,
        logCrm (Called (id l))
          (onScreen (withSyncingLeads (λ prev, prev ∪ {[id l]}))
             (syncedAll (take j ls) env w))).
Proof.
  revert j env w. induction ls as [|l0 ls IH]; intros j env w Hj; [done|].
  destruct j as [|j].
  - injection Hj as ->. cbn [advanceAfter take syncedAll].
    destruct (advance_forOf_cons r Hc l ls w) as (k & Hk & _). by exists k.
  - rewrite advanceAfter_forOf_cons. cbn [take syncedAll]. by apply IH.
Qed.
End ConfiguredBatch.

(** ** The first lead with an identifier *)

Lemma findLead_None ls leadId :
  leadId ∉ (id <$> ls) → findLead ls leadId = None.
Proof.
  unfold findLead. induction ls as [|l ls IH]; intros Hn; [done|]. cbn.
  rewrite fmap_cons, not_elem_of_cons in Hn. destruct Hn as [Hne Hn].
  rewrite bool_decide_eq_false_2 by done. by apply IH.
Qed.

Lemma findLead_first pre l post :
  id l ∉ (id <$> pre) → findLead (pre ++ l :: post) (id l) = Some l.
Proof.
  unfold findLead. induction pre as [|p pre IH]; intros Hn; cbn.
  - by rewrite bool_decide_eq_true_2.
  - rewrite fmap_cons, not_elem_of_cons in Hn. destruct Hn as [Hne Hn].
    rewrite bool_decide_eq_false_2 by done. by apply IH.
Qed.

Lemma getSyncStatusIcon_spinner r leadId :
  getSyncStatusIcon r leadId = ActivityIndicator ↔ leadId ∈ syncingLeads r.
Proof.
  unfold getSyncStatusIcon. case_bool_decide; [done|].
  by destruct (from_option syncedToHubSpot false _).
Qed.

(** ** The properties *)

(** X1. [handleSearch] turns a query down exactly when every code unit of
    it is white space (the empty query included): then it raises
    InvalidQuery and returns.  Any other query goes to the discovery call
    as typed, not trimmed, with no notice, the gateway and the screen
    state left alone, and the handler is suspended on that call. *)
Theorem handleSearch_blank_or_discovery (r : ScreenState) (w : World) :
  (Forall (λ c, isWhiteSpace c = true) (searchQuery r) →
     ∃ w', advance (handleSearch r) w = (Finished (Returned tt), w')
           ∧ onlyNotice InvalidQuery w w')
  ∧ (¬ Forall (λ c, isWhiteSpace c = true) (searchQuery r) →
     ∃ w', advance (handleSearch r) w
             = (AwaitingSearch (searchQuery r) (Ret tt), w')
           ∧ discoveryLog w' = discoveryLog w ++ [searchQuery r]
           ∧ notices w' = notices w
           ∧ crmLog w' = crmLog w
           ∧ screen w' = screen w).
Proof.
  unfold handleSearch. split; intros Hq.
  - apply trim_nil in Hq. rewrite Hq. eexists. split; [reflexivity|].
    apply onlyNotice_notify.
  - destruct (trim (searchQuery r)) as [|c s] eqn:Ht.
    + by apply trim_nil in Ht.
    + eexists. split; [reflexivity|]. done.
Qed.

Lemma handleSearch_blank_or_discovery_witness :
  Forall (λ c, isWhiteSpace c = true) (searchQuery blankQuery)
  ∧ ¬ Forall (λ c, isWhiteSpace c = true) (searchQuery threeLeads)
  ∧ (∃ w', advance (handleSearch blankQuery) (start blankQuery)
           = (Finished (Returned tt), w')
           ∧ onlyNotice InvalidQuery (start blankQuery) w')
  ∧ (∃ w', advance (handleSearch threeLeads) (start threeLeads)
           = (AwaitingSearch (searchQuery threeLeads) (Ret tt), w')
           ∧ discoveryLog w' = [lit "Oil and Gas Oklahoma Kansas"]).
Proof.
  assert (Hb : Forall (λ c, isWhiteSpace c = true) (searchQuery blankQuery))
    by (apply trim_nil; reflexivity).
  assert (Hn : ¬ Forall (λ c, isWhiteSpace c = true) (searchQuery threeLeads))
    by (intros H%trim_nil; discriminate H).
  split; [exact Hb|]. split; [exact Hn|]. split.
  - exact (proj1 (handleSearch_blank_or_discovery blankQuery (start blankQuery)) Hb).
  - destruct (proj2 (handleSearch_blank_or_discovery threeLeads (start threeLeads)) Hn)
      as (w' & Ha & Hd & _).
    exists w'. split; [exact Ha|exact Hd].
Defined.

(** X2. The Sync Attempt Set holds an identifier once, however many syncs
    of it are pending.  When two [handleSyncLead] calls for one lead
    overlap, the return of the first (whatever its outcome) removes the
    identifier although the write of the second has not settled: the
    status icon of the lead is no longer the activity indicator, and its
    sync action is enabled again. *)
Theorem first_return_unmarks_overlapping_sync (r1 r2 : ScreenState)
    (leadId : JsString) (w : World) :
  isConfigured r1 = true → isConfigured r2 = true →
  ∃ k1 w1 k2 w2,
    advance (handleSyncLead r1 leadId) w = (AwaitingSync leadId k1, w1)
    ∧ advance (handleSyncLead r2 leadId) w1 = (AwaitingSync leadId k2, w2)
    ∧ ∀ o, ∃ w3,
        resumeSync leadId k1 o w2 = (Finished (Returned tt), w3)
        ∧ crmLog w3 = crmLog w ++ [Called leadId; Called leadId; Settled leadId o]
        ∧ (leadId ∉ syncingLeads (screen w3))
        ∧ getSyncStatusIcon (screen w3) leadId ≠ ActivityIndicator
        ∧ (isConfigured (screen w) = true →
           ∀ l, id l = leadId → canSync (screen w3) l = true).
Proof.
  intros H1 H2.
  destruct (advance_handleSyncLead r1 H1 leadId w) as (k1 & Hk1 & Hres).
  destruct (advance_handleSyncLead r2 H2 leadId
              (logCrm (Called leadId)
                 (onScreen (withSyncingLeads (λ prev, prev ∪ {[leadId]})) w)))
    as (k2 & Hk2 & _).
  eexists k1, _, k2, _. split; [exact Hk1|]. split; [exact Hk2|].
  intros o. unfold resumeSync. rewrite Hres. eexists. split; [reflexivity|].
  assert (Hout : leadId ∉ syncingLeads (screen
            (onScreen (withSyncingLeads (λ prev, prev ∖ {[leadId]}))
               (notify (syncNotice o)
                  (crmSettled leadId o
                     (logCrm (Called leadId)
                        (onScreen (withSyncingLeads (λ prev, prev ∪ {[leadId]}))
                           (logCrm (Called leadId)
                              (onScreen (withSyncingLeads (λ prev, prev ∪ {[leadId]}))
                                 w))))))))).
  { destruct o as [[]|e]; cbn; set_solver. }
  split; [|split; [exact Hout|split]].
  - destruct o as [[]|e]; cbn; by rewrite <- !app_assoc.
  - by rewrite getSyncStatusIcon_spinner.
  - intros Hw l <-. unfold canSync.
    rewrite (bool_decide_eq_false_2 _ Hout), andb_true_r.
    by destruct o as [[]|e].
Qed.

Lemma first_return_unmarks_overlapping_sync_witness :
  isConfigured threeLeads = true
  ∧ ∃ k1 w1 k2 w2,
      advance (handleSyncLead threeLeads (lit "L1")) (start threeLeads)
      = (AwaitingSync (lit "L1") k1, w1)
      ∧ advance (handleSyncLead threeLeads (lit "L1")) w1
        = (AwaitingSync (lit "L1") k2, w2)
      ∧ ∃ w3, resumeSync (lit "L1") k1 (Resolved false) w2
              = (Finished (Returned tt), w3)
              ∧ crmLog w3 = [Called (lit "L1"); Called (lit "L1");
                             Settled (lit "L1") (Resolved false)]
              ∧ canSync (screen w3) (lead "L1" false) = true.
Proof.
  split; [reflexivity|].
  destruct (first_return_unmarks_overlapping_sync threeLeads threeLeads (lit "L1")
              (start threeLeads) eq_refl eq_refl)
    as (k1 & w1 & k2 & w2 & Ha & Hb & Hres).
  exists k1, w1, k2, w2. split; [exact Ha|]. split; [exact Hb|].
  destruct (Hres (Resolved false)) as (w3 & Hr & Hl & _ & _ & Hcan).
  exists w3. split; [exact Hr|]. split; [exact Hl|].
  apply Hcan; reflexivity.
Defined.

(** X3. A sync of one lead never changes whether another lead is marked in
    flight: neither its start nor its return, whatever the outcome and
    whatever else has happened meanwhile, touches the membership of a
    different identifier in the Sync Attempt Set. *)
Theorem sync_keeps_marks_of_other_leads (r : ScreenState) (a b : JsString)
    (w : World) :
  isConfigured r = true → a ≠ b →
  ∃ k w1,
    advance (handleSyncLead r a) w = (AwaitingSync a k, w1)
    ∧ (b ∈ syncingLeads (screen w1) ↔ b ∈ syncingLeads (screen w))
    ∧ ∀ o w2, ∃ w3,
        resumeSync a k o w2 = (Finished (Returned tt), w3)
        ∧ (b ∈ syncingLeads (screen w3) ↔ b ∈ syncingLeads (screen w2)).
Proof.
  intros Hc Hab.
  destruct (advance_handleSyncLead r Hc a w) as (k & Hk & Hres).
  eexists k, _. split; [exact Hk|]. split; [cbn; set_solver|].
  intros o w2. unfold resumeSync. rewrite Hres. eexists. split; [reflexivity|].
  destruct o as [[]|e]; cbn; set_solver.
Qed.

Lemma sync_keeps_marks_of_other_leads_witness :
  isConfigured resyncing = true ∧ lit "L2" ≠ lit "L1"
  ∧ ∃ k w1,
      advance (handleSyncLead resyncing (lit "L2")) (start resyncing)
      = (AwaitingSync (lit "L2") k, w1)
      ∧ (lit "L1" ∈ syncingLeads (screen w1)
         ↔ lit "L1" ∈ syncingLeads (screen (start resyncing)))
      ∧ ∀ o w2, ∃ w3,
          resumeSync (lit "L2") k o w2 = (Finished (Returned tt), w3)
          ∧ (lit "L1" ∈ syncingLeads (screen w3)
             ↔ lit "L1" ∈ syncingLeads (screen w2)).
Proof.
  split; [reflexivity|]. split; [discriminate|].
  apply (sync_keeps_marks_of_other_leads resyncing (lit "L2") (lit "L1")
           (start resyncing)); [reflexivity|discriminate].
Defined.

(** X4. Adding and removing balance out.  One [handleSyncLead] run to its
    end leaves the Sync Attempt Set as it found it, less its own
    identifier; a whole bulk sync leaves it as it found it, less the
    identifiers of the batch.  So a sync or a batch started with nothing in
    flight ends with nothing in flight. *)
Theorem sync_restores_attempt_set (r : ScreenState) (env : Collaborators)
    (w : World) :
  isConfigured r = true →
  (∀ leadId, ∃ w' env',
     exec (handleSyncLead r leadId) env w = (Returned tt, w', env')
     ∧ syncingLeads (screen w') = syncingLeads (screen w) ∖ {[leadId]}
     ∧ (leadId ∉ syncingLeads (screen w) →
        syncingLeads (screen w') = syncingLeads (screen w)))
  ∧ ∃ w' env',
      exec (syncAllOnPress r) env w = (Returned tt, w', env')
      ∧ syncingLeads (screen w')
        = syncingLeads (screen w) ∖ list_to_set (id <$> leads r)
      ∧ (syncingLeads (screen w) = ∅ → syncingLeads (screen w') = ∅).
Proof.
  intros Hc. split.
  - intros leadId. rewrite (exec_handleSyncLead r Hc). eexists _, _.
    split; [reflexivity|]. rewrite syncingLeads_synced. split; [done|set_solver].
  - unfold syncAllOnPress.
    destruct (exec_forOf_handleSyncLead r Hc (leads r) env w) as [env' He].
    eexists _, env'. split; [exact He|]. rewrite syncingLeads_syncedAll.
    split; [done|]. intros ->. set_solver.
Qed.

Lemma sync_restores_attempt_set_witness :
  isConfigured resyncing = true
  ∧ ∃ w' env',
      exec (syncAllOnPress resyncing) (failing [0] (Rejected NonError))
           (start resyncing) = (Returned tt, w', env')
      ∧ syncingLeads (screen w')
        = syncingLeads (screen (start resyncing))
          ∖ list_to_set (id <$> leads resyncing).
Proof.
  split; [reflexivity|].
  destruct (sync_restores_attempt_set resyncing (failing [0] (Rejected NonError))
              (start resyncing) eq_refl) as (_ & w' & env' & He & Hs & _).
  exists w', env'. split; [exact He|exact Hs].
Defined.

(** X5. [handleSyncAllLeads] always returns at once, having raised exactly
    one notice and nothing else (no gateway call, no change of the screen
    state).  The notice is the confirmation, with its two buttons, exactly
    in the renderings that show the [Sync All] button; in every other
    rendering it is an error notice without buttons, so the two checks of
    the handler never fire on a press of the button it is bound to. *)
Theorem handleSyncAllLeads_prompts_iff_button_rendered (r : ScreenState)
    (w : World) :
  ∃ n w',
    advance (handleSyncAllLeads r) w = (Finished (Returned tt), w')
    ∧ onlyNotice n w w'
    ∧ (syncAllRendered r = true →
       title n = lit "Sync All Leads"
       ∧ buttons n = [cancelButton; syncAllButton r])
    ∧ (syncAllRendered r = false → title n = lit "Error" ∧ buttons n = []).
Proof.
  unfold handleSyncAllLeads, syncAllRendered.
  destruct (isConfigured r); cbn [negb andb].
  - destruct (leads r) as [|l ls]; cbn [length Nat.eqb].
    + eexists _, _. split; [reflexivity|]. split; [apply onlyNotice_notify|].
      split; [|done]. intros H. apply bool_decide_eq_true in H. cbn in H. lia.
    + eexists _, _. split; [reflexivity|]. split; [apply onlyNotice_notify|].
      split; [done|]. intros H. apply bool_decide_eq_false in H. cbn in H. lia.
  - eexists _, _. split; [reflexivity|]. split; [apply onlyNotice_notify|].
    split; [discriminate|done].
Qed.

Lemma handleSyncAllLeads_prompts_iff_button_rendered_witness :
  syncAllRendered threeLeads = true ∧ syncAllRendered unconfigured = false
  ∧ (∃ n w',
       advance (handleSyncAllLeads threeLeads) (start threeLeads)
       = (Finished (Returned tt), w')
       ∧ onlyNotice n (start threeLeads) w'
       ∧ buttons n = [cancelButton; syncAllButton threeLeads])
  ∧ (∃ n w',
       advance (handleSyncAllLeads unconfigured) (start unconfigured)
       = (Finished (Returned tt), w')
       ∧ onlyNotice n (start unconfigured) w'
       ∧ title n = lit "Error").
Proof.
  split; [reflexivity|]. split; [reflexivity|]. split.
  - destruct (handleSyncAllLeads_prompts_iff_button_rendered threeLeads
                (start threeLeads)) as (n & w' & Ha & Ho & Hy & _).
    exists n, w'. split; [exact Ha|]. split; [exact Ho|].
    exact (proj2 (Hy eq_refl)).
  - destruct (handleSyncAllLeads_prompts_iff_button_rendered unconfigured
                (start unconfigured)) as (n & w' & Ha & Ho & _ & Hn).
    exists n, w'. split; [exact Ha|]. split; [exact Ho|].
    exact (proj1 (Hn eq_refl)).
Defined.

(** X6. On every lead card the activity indicator and the sync action
    exclude each other: the icon of a card is the activity indicator
    exactly when the identifier of its lead is in the Sync Attempt Set,
    and then its [canSync] is false; with the gateway configured,
    [canSync] is true exactly on the cards whose icon is not the activity
    indicator. *)
Theorem card_spinner_excludes_sync_action (r : ScreenState) (c : LeadCardProps) :
  c ∈ leadCards r →
  (card_syncIcon c = ActivityIndicator ↔ card_key c ∈ syncingLeads r)
  ∧ (card_syncIcon c = ActivityIndicator → card_canSync c = false)
  ∧ (isConfigured r = true →
     (card_canSync c = true ↔ card_syncIcon c ≠ ActivityIndicator)).
Proof.
  intros Hin. apply list_elem_of_fmap in Hin as (l & -> & _). cbn.
  rewrite getSyncStatusIcon_spinner. unfold canSync.
  split; [done|]. split.
  - intros Hs. by rewrite bool_decide_eq_true_2, andb_false_r.
  - intros ->. cbn. case_bool_decide; split; done.
Qed.

Lemma card_spinner_excludes_sync_action_witness :
  (∃ c, leadCards resyncing !! 0%nat = Some c
        ∧ card_syncIcon c = ActivityIndicator ∧ card_canSync c = false)
  ∧ isConfigured resyncing = true.
Proof.
  split; [|reflexivity].
  destruct (leadCards resyncing !! 0%nat) as [c|] eqn:Hc; [|discriminate Hc].
  assert (Hin : c ∈ leadCards resyncing)
    by (apply list_elem_of_lookup; by exists 0%nat).
  destruct (card_spinner_excludes_sync_action resyncing c Hin) as (Hi & Hf & _).
  assert (Hs : card_syncIcon c = ActivityIndicator)
    by (injection Hc as <-; reflexivity).
  exists c. split; [reflexivity|]. split; [exact Hs|exact (Hf Hs)].
Defined.

(** X7. The sync action of an enabled card always reaches the gateway.  If
    a card of the current rendering has [canSync] true, its [onSync] raises
    no notice (never the not-configured error) and starts the write of
    that lead; in the rendering that follows the card is disabled and
    shows the activity indicator; and when the write has settled, with the
    gateway still configured, the card is enabled again. *)
Theorem enabled_card_starts_sync (w : World) (c : LeadCardProps) :
  c ∈ leadCards (screen w) → card_canSync c = true →
  ∃ k w',
    advance (card_onSync c) w = (AwaitingSync (card_key c) k, w')
    ∧ notices w' = notices w
    ∧ crmLog w' = crmLog w ++ [Called (card_key c)]
    ∧ canSync (screen w') (card_lead c) = false
    ∧ getSyncStatusIcon (screen w') (card_key c) = ActivityIndicator
    ∧ ∀ o w2, isConfigured (screen w2) = true →
        ∃ w3, resumeSync (card_key c) k o w2 = (Finished (Returned tt), w3)
              ∧ canSync (screen w3) (card_lead c) = true.
Proof.
  intros Hin Hcan. apply list_elem_of_fmap in Hin as (l & -> & _).
  cbn in Hcan |- *. unfold canSync in Hcan.
  apply andb_true_iff in Hcan as [Hc _].
  destruct (advance_handleSyncLead (screen w) Hc (id l) w) as (k & Hk & Hres).
  eexists k, _. split; [exact Hk|]. split; [done|]. split; [done|].
  split; [|split].
  - unfold canSync. cbn. rewrite bool_decide_eq_true_2 by set_solver.
    apply andb_false_r.
  - apply getSyncStatusIcon_spinner. cbn. set_solver.
  - intros o w2 Hc2. unfold resumeSync. rewrite Hres. eexists.
    split; [reflexivity|]. unfold canSync.
    rewrite bool_decide_eq_false_2 by (destruct o as [[]|e]; cbn; set_solver).
    rewrite andb_true_r. by destruct o as [[]|e].
Qed.

Lemma enabled_card_starts_sync_witness :
  ∃ c, leadCards (screen (start resyncing)) !! 2%nat = Some c
       ∧ card_canSync c = true
       ∧ ∃ k w', advance (card_onSync c) (start resyncing)
                 = (AwaitingSync (card_key c) k, w')
                 ∧ crmLog w' = [Called (lit "L3")]
                 ∧ canSync (screen w') (card_lead c) = false.
Proof.
  destruct (leadCards (screen (start resyncing)) !! 2%nat) as [c|] eqn:Hc;
    [|discriminate Hc].
  assert (Hin : c ∈ leadCards (screen (start resyncing)))
    by (apply list_elem_of_lookup; by exists 2%nat).
  assert (Hcan : card_canSync c = true) by (injection Hc as <-; reflexivity).
  destruct (enabled_card_starts_sync (start resyncing) c Hin Hcan)
    as (k & w' & Ha & _ & Hl & Hd & _).
  exists c. split; [reflexivity|]. split; [exact Hcan|].
  exists k, w'. split; [exact Ha|]. split; [|exact Hd].
  rewrite Hl. injection Hc as <-. reflexivity.
Defined.

(** X8. During a bulk sync one lead at a time is marked in flight.  When
    the writes of the first [j] leads of the batch have settled, whatever
    their outcomes, the loop is suspended on the write of lead [j]: the
    writes started so far are those of the leads up to it, in order; the
    Sync Attempt Set is what it was before the batch, less the leads done,
    plus that one lead (so exactly that lead, if nothing else was in
    flight); and one notice has been raised for each lead done. *)
Theorem syncAll_marks_one_lead_at_a_time (r : ScreenState) (env : Collaborators)
    (w : World) (j : nat) (l : Lead) :
  isConfigured r = true → leads r !! j = Some l →
  ∃ k w',
    advanceAfter j (syncAllOnPress r) env w = (AwaitingSync (id l) k, w')
    ∧ calls (crmLog w') = calls (crmLog w) ++ (id <$> take (S j) (leads r))
    ∧ syncingLeads (screen w')
      = (syncingLeads (screen w) ∖ list_to_set (id <$> take j (leads r)))
        ∪ {[id l]}
    ∧ (syncingLeads (screen w) = ∅ → syncingLeads (screen w') = {[id l]})
    ∧ notices w' = notices w ++ imap (λ i _, syncNotice (crm env i)) (take j (leads r)).
Proof.
  intros Hc Hj. unfold syncAllOnPress.
  destruct (advanceAfter_forOf r Hc (leads r) j l env w Hj) as (k & Hk).
  eexists k, _. split; [exact Hk|]. cbn [crmLog logCrm screen onScreen
    syncingLeads withSyncingLeads notices].
  split; [|split; [|split]].
  - rewrite calls_app, calls_syncedAll, (take_S_r _ _ _ Hj), fmap_app.
    by rewrite <- app_assoc.
  - by rewrite syncingLeads_syncedAll.
  - rewrite syncingLeads_syncedAll. intros ->. set_solver.
  - apply notices_syncedAll.
Qed.

Lemma syncAll_marks_one_lead_at_a_time_witness :
  isConfigured threeLeads = true
  ∧ leads threeLeads !! 1%nat = Some (lead "L2" false)
  ∧ ∃ k w',
      advanceAfter 1 (syncAllOnPress threeLeads) (failing [0] (Resolved false))
                   (start threeLeads)
      = (AwaitingSync (lit "L2") k, w')
      ∧ calls (crmLog w') = [lit "L1"; lit "L2"]
      ∧ syncingLeads (screen w') = {[lit "L2"]}
      ∧ notices w' = [SyncFailed].
Proof.
  split; [reflexivity|]. split; [reflexivity|].
  destruct (syncAll_marks_one_lead_at_a_time threeLeads
              (failing [0] (Resolved false)) (start threeLeads) 1
              (lead "L2" false) eq_refl eq_refl)
    as (k & w' & Ha & Hcalls & _ & Hs & Hn).
  exists k, w'. split; [exact Ha|]. split; [exact Hcalls|].
  split; [exact (Hs eq_refl)|exact Hn].
Defined.

(** X9. [getSyncStatusIcon] decides by the first lead that carries the
    identifier.  For an identifier that is not in flight: if no lead of the
    collection carries it, the icon is the zap; otherwise the icon is the
    check mark or the zap according to the flag of the first lead that
    carries it, whatever later leads with the same identifier say.  An
    identifier in flight shows the activity indicator even if no lead
    carries it. *)
Theorem getSyncStatusIcon_first_match (r : ScreenState) (leadId : JsString) :
  (leadId ∈ syncingLeads r → getSyncStatusIcon r leadId = ActivityIndicator)
  ∧ (leadId ∉ syncingLeads r →
     (leadId ∉ (id <$> leads r) → getSyncStatusIcon r leadId = Zap)
     ∧ (∀ pre l post,
          leads r = pre ++ l :: post → id l = leadId → leadId ∉ (id <$> pre) →
          getSyncStatusIcon r leadId
          = if syncedToHubSpot l then CheckCircle else Zap)).
Proof.
  split; [by intros ?%getSyncStatusIcon_spinner|].
  intros Hs. unfold getSyncStatusIcon. rewrite (bool_decide_eq_false_2 _ Hs).
  split.
  - intros Hn. by rewrite (findLead_None _ _ Hn).
  - intros pre l post -> <- Hn. by rewrite (findLead_first _ _ _ Hn).
Qed.

Lemma getSyncStatusIcon_first_match_witness :
  (lit "L1" ∉ syncingLeads twins)
  ∧ (lit "L9" ∉ (id <$> leads twins))
  ∧ getSyncStatusIcon twins (lit "L9") = Zap
  ∧ getSyncStatusIcon twins (lit "L1") = Zap.
Proof.
  assert (H1 : lit "L1" ∉ syncingLeads twins) by by_evaluation.
  assert (H9 : lit "L9" ∉ syncingLeads twins) by by_evaluation.
  assert (Hn : lit "L9" ∉ (id <$> leads twins)) by by_evaluation.
  split; [exact H1|]. split; [exact Hn|]. split.
  - exact (proj1 (proj2 (getSyncStatusIcon_first_match twins (lit "L9")) H9) Hn).
  - apply (proj2 (proj2 (getSyncStatusIcon_first_match twins (lit "L1")) H1)
             [] (lead "L1" false) [lead "L1" true] eq_refl eq_refl).
    by_evaluation.
Defined.

(** X10. What the screen shows fits together.  The counter of synced leads
    never exceeds the counter of leads found; there is one card per lead,
    in the order of the collection; the empty state is shown only with no
    card, no [Clear Results], no [Sync All] and no error banner; and
    [Sync All] is shown only together with [Clear Results], never with the
    empty state. *)
Theorem rendering_is_consistent (r : ScreenState) (isLoading : bool) :
  syncedCount r ≤ leadsFound r
  ∧ card_lead <$> leadCards r = leads r
  ∧ (clearRendered r = true ↔ leadCards r ≠ [])
  ∧ (emptyStateRendered r isLoading = true →
     leadCards r = [] ∧ clearRendered r = false ∧ syncAllRendered r = false
     ∧ errorRendered r = false ∧ leadsFound r = 0 ∧ syncedCount r = 0)
  ∧ (syncAllRendered r = true →
     clearRendered r = true ∧ emptyStateRendered r isLoading = false).
Proof.
  unfold syncedCount, leadsFound, leadCards, clearRendered, emptyStateRendered,
    syncAllRendered.
  split; [apply List.filter_length_le|].
  split.
  { rewrite <- list_fmap_compose. rewrite <- (list_fmap_id (leads r)) at 2.
    by apply list_fmap_ext. }
  destruct (leads r) as [|l ls]; cbn.
  - split; [split; [intros H; apply bool_decide_eq_true in H; lia|done]|].
    split.
    + intros H. destruct isLoading; [done|]. cbn in H.
      apply negb_true_iff in H.
      assert (Hb : bool_decide (0 < 0) = false)
        by (apply bool_decide_eq_false; lia).
      rewrite Hb, andb_false_r. done.
    + intros H. apply andb_true_iff in H as [_ H].
      apply bool_decide_eq_true in H. lia.
  - split; [split; [done|intros _; apply bool_decide_eq_true; lia]|].
    split; [done|]. intros _. split; [apply bool_decide_eq_true; lia|done].
Qed.

Lemma rendering_is_consistent_witness :
  emptyStateRendered unconfigured false = true
  ∧ syncAllRendered resyncing = true
  ∧ leadCards unconfigured = []
  ∧ clearRendered resyncing = true
  ∧ syncedCount resyncing = 2 ∧ leadsFound resyncing = 3.
Proof.
  destruct (rendering_is_consistent unconfigured false) as (_ & _ & _ & He & _).
  destruct (rendering_is_consistent resyncing false) as (_ & _ & _ & _ & Hs).
  split; [reflexivity|]. split; [reflexivity|].
  split; [exact (proj1 (He eq_refl))|].
  split; [exact (proj1 (Hs eq_refl))|]. split; reflexivity.
Defined.

(** X11. The confirmation keeps its word.  The number of leads it names is
    the number of leads of the rendering it was raised from, and confirming
    it starts exactly that many gateway writes and raises exactly that many
    further notices, one per lead. *)
Theorem confirmation_names_number_of_writes (r : ScreenState)
    (env : Collaborators) (w : World) :
  isConfigured r = true → leads r ≠ [] →
  ∃ prompt w1,
    advance (handleSyncAllLeads r) w = (Finished (Returned tt), w1)
    ∧ last (notices w1) = Some prompt
    ∧ message prompt
      = lit "This will sync " ++ numberToString (leadsFound r)
        ++ lit " leads to HubSpot. Continue?"
    ∧ ∃ w' env',
        exec (choose "Sync All" w1) env w1 = (Returned tt, w', env')
        ∧ length (calls (crmLog w')) = length (calls (crmLog w)) + leadsFound r
        ∧ length (notices w') = length (notices w1) + leadsFound r.
Proof.
  intros Hc Hne.
  pose proof (choose_syncAll r Hc w Hne) as Hch.
  assert (Hadv : advance (handleSyncAllLeads r) w =
    (Finished (Returned tt),
     notify {| title := lit "Sync All Leads";
               message := lit "This will sync " ++ numberToString (length (leads r))
                          ++ lit " leads to HubSpot. Continue?";
               buttons := [cancelButton; syncAllButton r] |} w)).
  { unfold handleSyncAllLeads. rewrite Hc. cbn [negb].
    destruct (leads r) as [|l ls]; [done|]. reflexivity. }
  rewrite Hadv in Hch |- *. cbn [snd] in Hch.
  eexists _, _. split; [reflexivity|]. split; [apply last_snoc|].
  split; [reflexivity|]. rewrite Hch. unfold syncAllOnPress, leadsFound.
  destruct (exec_forOf_handleSyncLead r Hc (leads r) env
              (notify {| title := lit "Sync All Leads";
                         message := lit "This will sync "
                                    ++ numberToString (length (leads r))
                                    ++ lit " leads to HubSpot. Continue?";
                         buttons := [cancelButton; syncAllButton r] |} w))
    as [env' He].
  eexists _, env'. split; [exact He|]. split.
  - rewrite calls_syncedAll, length_app, length_fmap. reflexivity.
  - rewrite notices_syncedAll, length_app, length_imap. reflexivity.
Qed.

Lemma confirmation_names_number_of_writes_witness :
  isConfigured threeLeads = true ∧ leads threeLeads ≠ []
  ∧ ∃ prompt w1,
      advance (handleSyncAllLeads threeLeads) (start threeLeads)
      = (Finished (Returned tt), w1)
      ∧ message prompt = lit "This will sync 3 leads to HubSpot. Continue?"
      ∧ ∃ w' env',
          exec (choose "Sync All" w1) (failing [] (Resolved false)) w1
          = (Returned tt, w', env')
          ∧ length (calls (crmLog w')) = 3.
Proof.
  split; [reflexivity|]. split; [discriminate|].
  destruct (confirmation_names_number_of_writes threeLeads
              (failing [] (Resolved false)) (start threeLeads) eq_refl)
    as (prompt & w1 & Ha & _ & Hm & w' & env' & He & Hl & _); [discriminate|].
  exists prompt, w1. split; [exact Ha|]. split; [exact Hm|].
  exists w', env'. split; [exact He|exact Hl].
Defined.
